(** * On-disk btree page and item encoding (inc_posix/btree.h)

    A shallow embedding of the macros of [btree.h]: the address/offset
    conversions, the packed 4-byte item header, the item space requirement
    and the loop that walks the items of a page.

    Conventions.
    - A [u_int32_t] is a [Z] in [0, 2^32); a store into a [u_int32_t]
      lvalue or a cast to [u_int32_t] is written [u32].
    - An [off_t] is a signed 64-bit [Z]; the result of arithmetic carried
      out in [off_t] is written [off_t_cast]; C leaves a signed overflow
      undefined, and the theorems apply it to representable values only,
      where it is the identity.
    - [sizeof] yields a [size_t], an unsigned 64-bit [Z]; arithmetic that
      involves a [sizeof] is carried out in [size_t].
    - Pointers into a page are byte offsets from [page->hdr]. *)

From Stdlib Require Import ZArith List Lia Bool.
Import ListNotations.
Local Open Scope Z_scope.

(** ** Machine integers *)

Definition UINT32_MAX : Z := 4294967295.

Definition u32 (x : Z) : Z := x mod 2 ^ 32.

Definition size_t (x : Z) : Z := x mod 2 ^ 64.

Definition off_t_cast (x : Z) : Z := (x + 2 ^ 63) mod 2 ^ 64 - 2 ^ 63.

Definition OFF_T_MAX : Z := 2 ^ 63 - 1.

Definition is_u32 (x : Z) : Prop := 0 <= x <= UINT32_MAX.

(** ** Item header: [struct __wt_item] *)

Module Item.

Record WT_ITEM : Set := mkItem { __item_chunk : Z }.

Definition WT_ITEM_MAX_LEN : Z := 16 * 1024 * 1024 - 1.

Definition WT_ITEM_KEY       : Z := 0x01000000.
Definition WT_ITEM_KEY_OVFL  : Z := 0x02000000.
Definition WT_ITEM_DATA      : Z := 0x03000000.
Definition WT_ITEM_DATA_OVFL : Z := 0x04000000.
Definition WT_ITEM_DUP       : Z := 0x05000000.
Definition WT_ITEM_DUP_OVFL  : Z := 0x06000000.
Definition WT_ITEM_OFFPAGE   : Z := 0x07000000.

Definition item_types : list Z :=
  [ WT_ITEM_KEY; WT_ITEM_KEY_OVFL; WT_ITEM_DATA; WT_ITEM_DATA_OVFL;
    WT_ITEM_DUP; WT_ITEM_DUP_OVFL; WT_ITEM_OFFPAGE ].

Definition WT_ITEM_LEN (item : WT_ITEM) : Z :=
  Z.land (__item_chunk item) 0x00ffffff.

Definition WT_ITEM_TYPE (item : WT_ITEM) : Z :=
  Z.land (__item_chunk item) 0x0f000000.

(** The two setters assign to the [u_int32_t] field [__item_chunk]; the
    value of the embedding is the item after the assignment. *)
Definition WT_ITEM_LEN_SET (item : WT_ITEM) (len : Z) : WT_ITEM :=
  mkItem (u32 (Z.lor (WT_ITEM_TYPE item) len)).

Definition WT_ITEM_TYPE_SET (item : WT_ITEM) (type : Z) : WT_ITEM :=
  mkItem (u32 (Z.lor (WT_ITEM_LEN item) type)).

Definition WT_ITEM_SIZE : Z := 4.

(** The header of an item is built by the two setters, applied to the
    item's storage whatever it held before. *)
Definition pack (item : WT_ITEM) (type len : Z) : WT_ITEM :=
  WT_ITEM_TYPE_SET (WT_ITEM_LEN_SET item len) type.

Definition pack_type_first (item : WT_ITEM) (type len : Z) : WT_ITEM :=
  WT_ITEM_LEN_SET (WT_ITEM_TYPE_SET item type) len.

Definition unpack (item : WT_ITEM) : Z * Z :=
  (WT_ITEM_TYPE item, WT_ITEM_LEN item).

(** The nibble of a 32-bit value that starts at bit [pos]. *)
Definition nibble_at (pos : Z) (x : Z) : Z := Z.land (Z.shiftr x pos) 0xf.

End Item.

(** ** Address translation and sizes in allocation units *)

Module Addr.

(** Modelled from the spec: the database handle [DB], declared outside this
    header; the macros here use only its allocation-unit size, a
    [u_int32_t] that is at least 512. *)
Record DB : Set := mkDB { allocsize : Z }.

Definition WT_ADDR_FIRST_PAGE : Z := 0.
Definition WT_ADDR_INVALID : Z := UINT32_MAX.

(** [(off_t)(addr) * (db)->allocsize]: the product is taken in [off_t]. *)
Definition WT_ADDR_TO_OFF (db : DB) (addr : Z) : Z :=
  off_t_cast (off_t_cast addr * allocsize db).

(** [(u_int32_t)((off) / (db)->allocsize)]: C division truncates towards
    zero, which is [Z.quot]; a zero [allocsize] is undefined in C and is
    excluded by the hypotheses of the theorems. *)
Definition WT_OFF_TO_ADDR (db : DB) (off : Z) : Z :=
  u32 (Z.quot off (allocsize db)).

(** Modelled from the spec: the macro [WT_ALIGN(n, v)], defined outside this
    header, rounds [n] up to the next multiple of [v]. *)
Definition WT_ALIGN (n v : Z) : Z := (n + (v - 1)) / v * v.

Definition WT_PAGE_HDR_SIZE : Z := 32.
Definition WT_PAGE_DESC_SIZE : Z := 64.

(** [sizeof(WT_PAGE_HDR)] is [WT_PAGE_HDR_SIZE]: the header says the
    equality is checked at startup. *)
Definition sizeof_WT_PAGE_HDR : Z := WT_PAGE_HDR_SIZE.

Definition WT_OVFL_BYTES (db : DB) (len : Z) : Z :=
  u32 (WT_ALIGN (size_t (len + sizeof_WT_PAGE_HDR)) (allocsize db)).

End Addr.

(** ** Items on a page *)

Module Page.

Import Item Addr.

Definition sizeof_WT_ITEM : Z := WT_ITEM_SIZE.
Definition sizeof_u_int32_t : Z := 4.

Definition WT_ITEM_SPACE_REQ (len : Z) : Z :=
  WT_ALIGN (size_t (sizeof_WT_ITEM + len)) sizeof_u_int32_t.

(** The part of [struct __wt_page_hdr] the item walk reads. *)
Record WT_PAGE_HDR : Type := mkHdr { u_entries : Z }.

(** The part of [struct __wt_page] the item walk reads.  [item_at o] is the
    [WT_ITEM] found [o] bytes after [page->hdr]; items are 4-byte aligned,
    so the header reads the chunk directly from the page. *)
Record WT_PAGE : Type := mkPage {
  addr : Z;
  bytes : Z;
  hdr : WT_PAGE_HDR;
  item_at : Z -> WT_ITEM
}.

Definition WT_PAGE_BYTE (page : WT_PAGE) : Z :=
  WT_PAGE_HDR_SIZE + (if addr page =? 0 then WT_PAGE_DESC_SIZE else 0).

Definition WT_ITEM_NEXT (page : WT_PAGE) (item : Z) : Z :=
  item + WT_ITEM_SPACE_REQ (WT_ITEM_LEN (item_at page item)).

(** [for (item = WT_PAGE_BYTE(page), i = entries; i > 0;
         item = WT_ITEM_NEXT(item), --i)]:
    the state of the loop is the cursor [item] and the counter [i];
    [foreach_from] lists the cursors the body runs with, [foreach_end] is the
    cursor the loop exits with. *)
Fixpoint foreach_from (page : WT_PAGE) (item : Z) (i : nat) : list Z :=
  match i with
  | O => []
  | S i' => item :: foreach_from page (WT_ITEM_NEXT page item) i'
  end.

Fixpoint foreach_end (page : WT_PAGE) (item : Z) (i : nat) : Z :=
  match i with
  | O => item
  | S i' => foreach_end page (WT_ITEM_NEXT page item) i'
  end.

Definition WT_ITEM_FOREACH (page : WT_PAGE) : list Z :=
  foreach_from page (WT_PAGE_BYTE page) (Z.to_nat (u_entries (hdr page))).

Definition WT_ITEM_FOREACH_end (page : WT_PAGE) : Z :=
  foreach_end page (WT_PAGE_BYTE page) (Z.to_nat (u_entries (hdr page))).

(** The bytes an item occupies on the page: from its header to the start
    of the next item. *)
Definition item_within (page : WT_PAGE) (item : Z) : Prop :=
  WT_PAGE_BYTE page <= item /\ WT_ITEM_NEXT page item <= bytes page.

(** The first page of a database, 512 bytes, with three entries: a key of
    3 bytes at offset 96, a data item of 4 bytes at 104 and a key of
    0 bytes at 112. *)
Definition example_page : WT_PAGE :=
  mkPage 0 512 (mkHdr 3)
    (fun o =>
       if o =? 96 then mkItem 0x01000003
       else if o =? 104 then mkItem 0x03000004
       else if o =? 112 then mkItem 0x01000000
       else mkItem 0).

End Page.

(** ** The operations as the specification words them

    These follow the specification's sentences, with its three error
    kinds; they are compared below with the macros above. *)

Module Spec.

Import Item.

Inductive error : Set := ItemTooLarge | Misaligned | OutOfRange.

Inductive result (A : Type) : Type :=
| Ok (a : A)
| Err (e : error).

Arguments Ok {A} a.
Arguments Err {A} e.

Definition set_length (item : WT_ITEM) (len : Z) : result WT_ITEM :=
  if 16777215 <? len then Err ItemTooLarge
  else Ok (mkItem (Z.lor (WT_ITEM_TYPE item) len)).

Definition to_addr (byte_offset alloc_unit_size : Z) : result Z :=
  if byte_offset mod alloc_unit_size =? 0
  then Ok (byte_offset / alloc_unit_size)
  else Err Misaligned.


End Spec.

(** ** Item data and reference payloads *)

Module Payload.

Import Item Page.

(** The first data byte of the item at byte offset [item]: the item's
    address as a byte pointer, plus [sizeof(WT_ITEM)]. *)
Definition WT_ITEM_BYTE (item : Z) : Z := item + sizeof_WT_ITEM.

Definition WT_ITEM_OFFP_SIZE : Z := 16.
Definition WT_ITEM_OVFL_SIZE : Z := 8.

(** The sum of the space requirements of the items at the given offsets. *)
Definition space_used (page : WT_PAGE) (items : list Z) : Z :=
  fold_right
    (fun item acc => WT_ITEM_SPACE_REQ (WT_ITEM_LEN (item_at page item)) + acc)
    0 items.

(** The page [example_page] with other types in the three headers and the
    same lengths. *)
Definition example_page_retyped : WT_PAGE :=
  mkPage 0 512 (mkHdr 3)
    (fun o =>
       if o =? 96 then mkItem 0x02000003
       else if o =? 104 then mkItem 0x07000004
       else if o =? 112 then mkItem 0x05000000
       else mkItem 0x0f000000).

End Payload.

(** ** The in-memory index and its walk *)

Module Index.

(** The part of [struct __wt_page] the index walk reads.  [indx] points at
    the first [WT_INDX] of the array; pointers to [WT_INDX] are counted in
    elements from the start of the allocation, so [++ip] adds 1. *)
Record WT_PAGE_INDX : Set := mkIndx {
  indx : Z;
  indx_count : Z;
  indx_size : Z
}.

(** [for (i = indx_count, ip = indx; i > 0; ++ip, --i)]: the list of the
    [ip] the body runs with. *)
Fixpoint indx_from (ip : Z) (i : nat) : list Z :=
  match i with
  | O => []
  | S i' => ip :: indx_from (ip + 1) i'
  end.

Definition WT_INDX_FOREACH (page : WT_PAGE_INDX) : list Z :=
  indx_from (indx page) (Z.to_nat (indx_count page)).

End Index.

(** ** The on-disk structures

    The fields of the five on-disk structures, in declaration order, each
    with its size and alignment in bytes: a fixed-width integer is aligned
    to its size, an array to its element, a nested structure or union to
    its widest member. *)

Module Layout.

Record field : Set := mkField { f_size : Z; f_align : Z }.

Definition u_int8_t : field := mkField 1 1.
Definition u_int16_t : field := mkField 2 2.
Definition u_int32_t : field := mkField 4 4.
Definition u_int64_t : field := mkField 8 8.
Definition array (elt : field) (n : Z) : field :=
  mkField (n * f_size elt) (f_align elt).

Definition round_up (n v : Z) : Z := (n + (v - 1)) / v * v.

(** The offset a compiler gives each field: the first multiple of the
    field's alignment at or after the end of the previous field. *)
Fixpoint offsets_from (off : Z) (fields : list field) : list Z :=
  match fields with
  | [] => []
  | f :: rest =>
      let o := round_up off (f_align f) in
      o :: offsets_from (o + f_size f) rest
  end.

Fixpoint end_from (off : Z) (fields : list field) : Z :=
  match fields with
  | [] => off
  | f :: rest => end_from (round_up off (f_align f) + f_size f) rest
  end.

Definition struct_align (fields : list field) : Z :=
  fold_right (fun f acc => Z.max (f_align f) acc) 1 fields.

(** [sizeof]: the end of the last field, padded to the structure's
    alignment. *)
Definition sizeof_struct (fields : list field) : Z :=
  round_up (end_from 0 fields) (struct_align fields).

(** The bytes the fields themselves take, padding apart. *)
Definition fields_bytes (fields : list field) : Z :=
  fold_right (fun f acc => f_size f + acc) 0 fields.

Definition struct_field (fields : list field) : field :=
  mkField (sizeof_struct fields) (struct_align fields).

Definition __wt_page_desc : list field :=
  [ u_int32_t;            (* magic *)
    u_int16_t;            (* majorv *)
    u_int16_t;            (* minorv *)
    u_int32_t;            (* leafsize *)
    u_int32_t;            (* intlsize *)
    u_int64_t;            (* base_recno *)
    u_int32_t;            (* root_addr *)
    u_int32_t;            (* free_addr *)
    array u_int32_t 8 ].  (* unused *)

Definition __wt_lsn : list field := [ u_int32_t; u_int32_t ].

Definition __wt_page_hdr : list field :=
  [ struct_field __wt_lsn;  (* lsn *)
    u_int8_t;               (* type *)
    u_int8_t;               (* level *)
    array u_int8_t 2;       (* unused *)
    u_int32_t;              (* checksum *)
    u_int32_t;              (* u: datalen or entries *)
    u_int32_t;              (* prntaddr *)
    u_int32_t;              (* prevaddr *)
    u_int32_t ].            (* nextaddr *)

Definition __wt_item : list field := [ u_int32_t ].

Definition __wt_item_offp : list field :=
  [ u_int64_t;            (* records *)
    u_int32_t;            (* addr *)
    u_int8_t;             (* level *)
    array u_int8_t 3 ].   (* unused *)

Definition __wt_item_ovfl : list field :=
  [ u_int32_t;            (* len *)
    u_int32_t ].          (* addr *)

End Layout.

(** ** Bit-level facts about the two masks *)

Section Masks.

Import Item.

Lemma len_mask_ones : 0x00ffffff = Z.ones 24.
Proof. reflexivity. Qed.

Lemma u32_ones (x : Z) : u32 x = Z.land x (Z.ones 32).
Proof. unfold u32. rewrite Z.land_ones by lia. reflexivity. Qed.

Lemma masks_disjoint : Z.land 0x00ffffff 0x0f000000 = 0.
Proof. reflexivity. Qed.

Lemma land_len_mask_small (l : Z) :
  0 <= l <= WT_ITEM_MAX_LEN -> Z.land l 0x00ffffff = l.
Proof.
  unfold WT_ITEM_MAX_LEN. intros Hl.
  rewrite len_mask_ones, Z.land_ones by lia.
  apply Z.mod_small. lia.
Qed.

Lemma land_type_mask_small (l : Z) :
  0 <= l <= WT_ITEM_MAX_LEN -> Z.land l 0x0f000000 = 0.
Proof.
  intros Hl.
  rewrite <- (land_len_mask_small l Hl), <- Z.land_assoc, masks_disjoint.
  apply Z.land_0_r.
Qed.

Lemma land_masked_len_type (c : Z) :
  Z.land (Z.land c 0x00ffffff) 0x0f000000 = 0.
Proof. rewrite <- Z.land_assoc, masks_disjoint. apply Z.land_0_r. Qed.

Lemma land_masked_type_len (c : Z) :
  Z.land (Z.land c 0x0f000000) 0x00ffffff = 0.
Proof.
  rewrite <- Z.land_assoc, (Z.land_comm 0x0f000000), masks_disjoint.
  apply Z.land_0_r.
Qed.

Lemma u32_land_len_mask (x : Z) :
  Z.land (u32 x) 0x00ffffff = Z.land x 0x00ffffff.
Proof.
  rewrite u32_ones, <- Z.land_assoc.
  replace (Z.land (Z.ones 32) 0x00ffffff) with 0x00ffffff by reflexivity.
  reflexivity.
Qed.

Lemma u32_land_type_mask (x : Z) :
  Z.land (u32 x) 0x0f000000 = Z.land x 0x0f000000.
Proof.
  rewrite u32_ones, <- Z.land_assoc.
  replace (Z.land (Z.ones 32) 0x0f000000) with 0x0f000000 by reflexivity.
  reflexivity.
Qed.

Lemma item_type_cases (t : Z) :
  In t item_types ->
  Z.land t 0x0f000000 = t /\ Z.land t 0x00ffffff = 0.
Proof.
  unfold item_types. simpl.
  intros [<- | [<- | [<- | [<- | [<- | [<- | [<- | []]]]]]]];
    split; reflexivity.
Qed.

End Masks.

(** ** The packed item header *)

Section ItemHeader.

Import Item Spec.

Lemma u32_small (x : Z) : is_u32 x -> u32 x = x.
Proof. unfold is_u32, UINT32_MAX, u32. intros H. apply Z.mod_small. lia. Qed.

Lemma len_of_len_set (item : WT_ITEM) (len : Z) :
  WT_ITEM_LEN (WT_ITEM_LEN_SET item len) = Z.land len 0x00ffffff.
Proof.
  unfold WT_ITEM_LEN, WT_ITEM_LEN_SET, WT_ITEM_TYPE. cbn [__item_chunk].
  rewrite u32_land_len_mask, Z.land_lor_distr_l, land_masked_type_len.
  apply Z.lor_0_l.
Qed.

Lemma type_of_len_set (item : WT_ITEM) (len : Z) :
  WT_ITEM_TYPE (WT_ITEM_LEN_SET item len)
  = Z.lor (WT_ITEM_TYPE item) (Z.land len 0x0f000000).
Proof.
  unfold WT_ITEM_LEN_SET, WT_ITEM_TYPE. cbn [__item_chunk].
  rewrite u32_land_type_mask, Z.land_lor_distr_l.
  rewrite <- Z.land_assoc, Z.land_diag. reflexivity.
Qed.

Lemma len_of_type_set (item : WT_ITEM) (type : Z) :
  WT_ITEM_LEN (WT_ITEM_TYPE_SET item type)
  = Z.lor (WT_ITEM_LEN item) (Z.land type 0x00ffffff).
Proof.
  unfold WT_ITEM_TYPE_SET, WT_ITEM_LEN. cbn [__item_chunk].
  rewrite u32_land_len_mask, Z.land_lor_distr_l.
  rewrite <- Z.land_assoc, Z.land_diag. reflexivity.
Qed.

Lemma type_of_type_set (item : WT_ITEM) (type : Z) :
  WT_ITEM_TYPE (WT_ITEM_TYPE_SET item type) = Z.land type 0x0f000000.
Proof.
  unfold WT_ITEM_TYPE, WT_ITEM_TYPE_SET, WT_ITEM_LEN. cbn [__item_chunk].
  rewrite u32_land_type_mask, Z.land_lor_distr_l, land_masked_len_type.
  apply Z.lor_0_l.
Qed.

Lemma type_field_range (item : WT_ITEM) : 0 <= WT_ITEM_TYPE item < 2 ^ 28.
Proof.
  unfold WT_ITEM_TYPE.
  assert (H : Z.land (__item_chunk item) 0x0f000000
              = Z.land (Z.land (__item_chunk item) 0x0f000000) (Z.ones 28)).
  { rewrite <- Z.land_assoc. reflexivity. }
  rewrite H, Z.land_ones by lia.
  apply Z.mod_pos_bound. lia.
Qed.

Lemma lor_u32_small (a b : Z) :
  0 <= a < 2 ^ 28 -> 0 <= b < 2 ^ 28 -> u32 (Z.lor a b) = Z.lor a b.
Proof.
  intros Ha Hb.
  rewrite u32_ones, Z.land_lor_distr_l, <- !u32_ones.
  rewrite !u32_small; [reflexivity | |]; unfold is_u32, UINT32_MAX; lia.
Qed.

(** C1.  The type field of every item header is the nibble at bits 24-27 of
    the chunk, moved back to bits 24-27; bits 28-31 of the type are always
    clear.  The seven type patterns are the nibble values 1 to 7 at bits
    24-27 and are all zero at bits 28-31, and the header of a key of length
    0 is 0x01000000. *)
Theorem item_type_field_position (item : WT_ITEM) :
  nibble_at 28 (WT_ITEM_TYPE item) = 0 /\
  WT_ITEM_TYPE item = Z.shiftl (nibble_at 24 (__item_chunk item)) 24 /\
  map (nibble_at 24) item_types = [1; 2; 3; 4; 5; 6; 7] /\
  map (nibble_at 28) item_types = [0; 0; 0; 0; 0; 0; 0] /\
  pack (mkItem 0) WT_ITEM_KEY 0 = mkItem 0x01000000.
Proof.
  repeat split; try reflexivity.
  - unfold nibble_at, WT_ITEM_TYPE.
    rewrite Z.shiftr_land.
    replace (Z.shiftr 0x0f000000 28) with 0 by reflexivity.
    rewrite Z.land_0_r. reflexivity.
  - unfold nibble_at, WT_ITEM_TYPE.
    apply Z.bits_inj'. intros n Hn.
    rewrite Z.shiftl_spec, !Z.land_spec by assumption.
    replace 0x0f000000 with (Z.shiftl 0xf 24) by reflexivity.
    rewrite Z.shiftl_spec by assumption.
    destruct (Z.ltb_spec n 24) as [Hlt | Hge].
    + rewrite (Z.testbit_neg_r 0xf) by lia.
      rewrite !andb_false_r. reflexivity.
    + rewrite Z.shiftr_spec by lia.
      replace (n - 24 + 24) with n by lia. reflexivity.
Qed.

(** C2, as the macro has it.  [WT_ITEM_LEN_SET] has no failure path and
    never looks at [WT_ITEM_MAX_LEN]: at every length it stores the old type
    or-ed with the length.  The length read back is the low 24 bits of the
    requested one and bits 24-27 of the request are or-ed into the type; for
    a length of at most 16,777,215 the result is the one the specification's
    [set_length] succeeds with, holding the old type and the new length. *)
Theorem len_set_unchecked (item : WT_ITEM) (len : Z) :
  WT_ITEM_LEN (WT_ITEM_LEN_SET item len) = len mod 2 ^ 24 /\
  WT_ITEM_TYPE (WT_ITEM_LEN_SET item len)
    = Z.lor (WT_ITEM_TYPE item) (Z.land len 0x0f000000) /\
  (0 <= len <= WT_ITEM_MAX_LEN ->
   set_length item len = Ok (WT_ITEM_LEN_SET item len) /\
   unpack (WT_ITEM_LEN_SET item len) = (WT_ITEM_TYPE item, len)).
Proof.
  split; [| split].
  - rewrite len_of_len_set, len_mask_ones, Z.land_ones by lia. reflexivity.
  - apply type_of_len_set.
  - intros Hlen. split.
    + unfold set_length.
      destruct (Z.ltb_spec 16777215 len) as [Hbig | _].
      * unfold WT_ITEM_MAX_LEN in Hlen. lia.
      * unfold WT_ITEM_LEN_SET. f_equal. f_equal.
        symmetry. apply lor_u32_small.
        -- apply type_field_range.
        -- unfold WT_ITEM_MAX_LEN in Hlen. lia.
    + unfold unpack.
      rewrite type_of_len_set, len_of_len_set.
      rewrite land_type_mask_small, land_len_mask_small by assumption.
      rewrite Z.lor_0_r. reflexivity.
Qed.

Lemma len_set_unchecked_witness :
  0 <= 5 <= WT_ITEM_MAX_LEN /\
  unpack (WT_ITEM_LEN_SET (mkItem 0x03000000) 5) = (0x03000000, 5).
Proof.
  assert (H : 0 <= 5 <= WT_ITEM_MAX_LEN) by (unfold WT_ITEM_MAX_LEN; lia).
  split; [exact H |].
  exact (proj2 (proj2 (proj2 (len_set_unchecked (mkItem 0x03000000) 5)) H)).
Defined.

(** C2, as the specification words it, fails: for the key header
    0x01000000 and the length 0x02000001, above the limit, the
    specification's [set_length] answers [ItemTooLarge] while the macro
    writes the item, which then reads as a data item of length 1. *)
Lemma len_set_too_large_is_written :
  WT_ITEM_MAX_LEN < 0x02000001 /\
  set_length (mkItem 0x01000000) 0x02000001 = Err ItemTooLarge /\
  WT_ITEM_LEN_SET (mkItem 0x01000000) 0x02000001 = mkItem 0x03000001 /\
  WT_ITEM_LEN_SET (mkItem 0x01000000) 0x02000001 <> mkItem 0x01000000 /\
  unpack (WT_ITEM_LEN_SET (mkItem 0x01000000) 0x02000001) = (WT_ITEM_DATA, 1).
Proof.
  repeat split; try reflexivity.
  intros H. discriminate H.
Qed.

(** C3.  For each of the seven type patterns and every length from 0 to
    16,777,215, the header built by the two setters, in either order and
    over whatever the item held, unpacks to that type and that length. *)
Theorem unpack_pack (item : WT_ITEM) (type len : Z) :
  In type item_types ->
  0 <= len <= WT_ITEM_MAX_LEN ->
  unpack (pack item type len) = (type, len) /\
  unpack (pack_type_first item type len) = (type, len).
Proof.
  intros Ht Hl.
  destruct (item_type_cases type Ht) as [HtT HtL].
  unfold unpack, pack, pack_type_first. split; f_equal.
  - rewrite type_of_type_set. exact HtT.
  - rewrite len_of_type_set, len_of_len_set, HtL, Z.lor_0_r.
    apply land_len_mask_small. exact Hl.
  - rewrite type_of_len_set, type_of_type_set, HtT.
    rewrite land_type_mask_small by exact Hl. apply Z.lor_0_r.
  - rewrite len_of_len_set. apply land_len_mask_small. exact Hl.
Qed.

Lemma unpack_pack_witness :
  (In WT_ITEM_DUP_OVFL item_types /\ 0 <= 16777215 <= WT_ITEM_MAX_LEN) /\
  unpack (pack (mkItem 0xffffffff) WT_ITEM_DUP_OVFL 16777215)
    = (WT_ITEM_DUP_OVFL, 16777215).
Proof.
  assert (Ht : In WT_ITEM_DUP_OVFL item_types)
    by (unfold item_types; simpl; tauto).
  assert (Hl : 0 <= 16777215 <= WT_ITEM_MAX_LEN)
    by (unfold WT_ITEM_MAX_LEN; lia).
  split; [exact (conj Ht Hl) |].
  exact (proj1 (unpack_pack (mkItem 0xffffffff) WT_ITEM_DUP_OVFL 16777215
                  Ht Hl)).
Defined.

(** C8.  On every item chunk, setting a length of at most 16,777,215 keeps
    the stored type and makes the stored length the new one; setting one of
    the seven type patterns keeps the stored length and makes the stored
    type the new one. *)
Theorem setters_preserve_other_field (item : WT_ITEM) (len type : Z) :
  (0 <= len <= WT_ITEM_MAX_LEN ->
   WT_ITEM_TYPE (WT_ITEM_LEN_SET item len) = WT_ITEM_TYPE item /\
   WT_ITEM_LEN (WT_ITEM_LEN_SET item len) = len) /\
  (In type item_types ->
   WT_ITEM_LEN (WT_ITEM_TYPE_SET item type) = WT_ITEM_LEN item /\
   WT_ITEM_TYPE (WT_ITEM_TYPE_SET item type) = type).
Proof.
  split.
  - intros Hl. split.
    + rewrite type_of_len_set, land_type_mask_small by exact Hl.
      apply Z.lor_0_r.
    + rewrite len_of_len_set. apply land_len_mask_small. exact Hl.
  - intros Ht. destruct (item_type_cases type Ht) as [HtT HtL]. split.
    + rewrite len_of_type_set, HtL. apply Z.lor_0_r.
    + rewrite type_of_type_set. exact HtT.
Qed.

Lemma setters_preserve_other_field_witness :
  (0 <= 77 <= WT_ITEM_MAX_LEN /\ In WT_ITEM_OFFPAGE item_types) /\
  (WT_ITEM_TYPE (WT_ITEM_LEN_SET (mkItem 0x05000010) 77) = 0x05000000 /\
   WT_ITEM_LEN (WT_ITEM_LEN_SET (mkItem 0x05000010) 77) = 77) /\
  (WT_ITEM_LEN (WT_ITEM_TYPE_SET (mkItem 0x05000010) WT_ITEM_OFFPAGE) = 16 /\
   WT_ITEM_TYPE (WT_ITEM_TYPE_SET (mkItem 0x05000010) WT_ITEM_OFFPAGE)
     = WT_ITEM_OFFPAGE).
Proof.
  pose proof
    (setters_preserve_other_field (mkItem 0x05000010) 77 WT_ITEM_OFFPAGE)
    as [Hlen Htype].
  assert (Hl : 0 <= 77 <= WT_ITEM_MAX_LEN) by (unfold WT_ITEM_MAX_LEN; lia).
  assert (Ht : In WT_ITEM_OFFPAGE item_types)
    by (unfold item_types; simpl; tauto).
  split; [exact (conj Hl Ht) |].
  split; [exact (Hlen Hl) | exact (Htype Ht)].
Defined.

End ItemHeader.

(** ** Rounding up to a multiple *)

Section Align.

Import Addr.

Lemma WT_ALIGN_multiple (n v : Z) : 0 < v -> WT_ALIGN n v mod v = 0.
Proof. intros Hv. unfold WT_ALIGN. apply Z.mod_mul. lia. Qed.

Lemma WT_ALIGN_bounds (n v : Z) :
  0 < v -> n <= WT_ALIGN n v < n + v.
Proof.
  intros Hv. unfold WT_ALIGN.
  pose proof (Z.mul_div_le (n + (v - 1)) v Hv) as Hle.
  pose proof (Z.mul_succ_div_gt (n + (v - 1)) v Hv) as Hgt.
  lia.
Qed.

Lemma size_t_small (x : Z) : 0 <= x < 2 ^ 64 -> size_t x = x.
Proof. intros H. unfold size_t. apply Z.mod_small. exact H. Qed.

Lemma off_t_cast_small (x : Z) : - 2 ^ 63 <= x <= OFF_T_MAX -> off_t_cast x = x.
Proof.
  unfold OFF_T_MAX, off_t_cast. intros H.
  rewrite Z.mod_small; lia.
Qed.

Lemma off_t_cast_range (x : Z) : - 2 ^ 63 <= off_t_cast x <= OFF_T_MAX.
Proof.
  unfold OFF_T_MAX, off_t_cast.
  pose proof (Z.mod_pos_bound (x + 2 ^ 63) (2 ^ 64)) as H. lia.
Qed.

End Align.

(** ** Addresses and byte offsets *)

Section AddressTranslation.

Import Addr Spec.

Variable db : DB.

(** C4, as the macro has it.  [WT_OFF_TO_ADDR] divides and has no failure
    path: for a positive allocation unit and an offset of the file whose
    quotient is a 32-bit address, the result is the quotient of the integer
    division, that is the address of the allocation unit that contains the
    offset; on a multiple of the unit it is the specification's [to_addr]. *)
Theorem off_to_addr_is_quotient (off : Z) :
  0 < allocsize db ->
  0 <= off ->
  off / allocsize db <= UINT32_MAX ->
  WT_OFF_TO_ADDR db off = off / allocsize db /\
  WT_OFF_TO_ADDR db off * allocsize db <= off
    < (WT_OFF_TO_ADDR db off + 1) * allocsize db /\
  (off mod allocsize db = 0 ->
   to_addr off (allocsize db) = Ok (WT_OFF_TO_ADDR db off)).
Proof.
  intros Hu Hoff Hq.
  assert (Hval : WT_OFF_TO_ADDR db off = off / allocsize db).
  { unfold WT_OFF_TO_ADDR.
    rewrite Z.quot_div_nonneg by lia.
    apply u32_small. split; [apply Z.div_pos; lia | exact Hq]. }
  rewrite Hval. split; [reflexivity | split].
  - pose proof (Z.mul_div_le off (allocsize db) Hu).
    pose proof (Z.mul_succ_div_gt off (allocsize db) Hu).
    lia.
  - intros Hmod. unfold to_addr. rewrite Hmod. reflexivity.
Qed.

Lemma addr_to_off_exact (addr : Z) :
  is_u32 addr ->
  0 <= allocsize db ->
  addr * allocsize db <= OFF_T_MAX ->
  WT_ADDR_TO_OFF db addr = addr * allocsize db.
Proof.
  unfold is_u32, UINT32_MAX. intros Ha Hu Hprod.
  unfold WT_ADDR_TO_OFF.
  rewrite (off_t_cast_small addr) by (unfold OFF_T_MAX; lia).
  apply off_t_cast_small. nia.
Qed.


(** C6.  For every address below the invalid one and every allocation unit
    of at least 512 bytes such that the product is a representable file
    offset, the address of the offset of the address is the address. *)
Theorem off_to_addr_of_addr_to_off (a : Z) :
  0 <= a < WT_ADDR_INVALID ->
  512 <= allocsize db ->
  a * allocsize db <= OFF_T_MAX ->
  WT_OFF_TO_ADDR db (WT_ADDR_TO_OFF db a) = a.
Proof.
  unfold WT_ADDR_INVALID. intros Ha Hu Hprod.
  rewrite addr_to_off_exact by (unfold is_u32; lia).
  unfold WT_OFF_TO_ADDR.
  rewrite Z.quot_mul by lia.
  apply u32_small. unfold is_u32. lia.
Qed.

End AddressTranslation.

Section AddressTranslationExamples.

Import Addr Spec.

Lemma off_to_addr_is_quotient_witness :
  (0 < 512 /\ 0 <= 1536 /\ 1536 / 512 <= UINT32_MAX) /\
  WT_OFF_TO_ADDR (mkDB 512) 1536 = 3.
Proof.
  assert (H1 : 0 < allocsize (mkDB 512)) by (simpl; lia).
  assert (H2 : 0 <= 1536) by lia.
  assert (H3 : 1536 / allocsize (mkDB 512) <= UINT32_MAX)
    by (vm_compute; discriminate).
  split.
  - exact (conj H1 (conj H2 H3)).
  - exact (proj1 (off_to_addr_is_quotient (mkDB 512) 1536 H1 H2 H3)).
Defined.

(** C4, as the specification words it, fails: the offset 513 is no multiple
    of the unit 512, the specification's [to_addr] answers [Misaligned], and
    the macro yields the address 1, the one it yields for 512. *)
Lemma off_to_addr_truncates_misaligned :
  513 mod 512 <> 0 /\
  to_addr 513 512 = Err Misaligned /\
  WT_OFF_TO_ADDR (mkDB 512) 513 = 1 /\
  WT_OFF_TO_ADDR (mkDB 512) 513 = WT_OFF_TO_ADDR (mkDB 512) 512.
Proof.
  repeat split; try reflexivity.
  vm_compute. discriminate.
Qed.


Lemma off_to_addr_of_addr_to_off_witness :
  (0 <= 4294967294 < WT_ADDR_INVALID /\
   512 <= 512 /\
   4294967294 * 512 <= OFF_T_MAX) /\
  WT_OFF_TO_ADDR (mkDB 512) (WT_ADDR_TO_OFF (mkDB 512) 4294967294)
    = 4294967294.
Proof.
  assert (H1 : 0 <= 4294967294 < WT_ADDR_INVALID)
    by (unfold WT_ADDR_INVALID, UINT32_MAX; lia).
  assert (H2 : 512 <= allocsize (mkDB 512)) by (simpl; lia).
  assert (H3 : 4294967294 * allocsize (mkDB 512) <= OFF_T_MAX)
    by (vm_compute; discriminate).
  split.
  - exact (conj H1 (conj H2 H3)).
  - exact (off_to_addr_of_addr_to_off (mkDB 512) 4294967294 H1 H2 H3).
Defined.

(** C10.  For the 32-bit overflow length 4294967264 and the allocation
    unit 512, the length plus the 32-byte page header rounded up to the
    unit is 4294967296 bytes, and the macro yields 0: not the rounded size,
    and fewer bytes than the item and its page header need. *)
Lemma ovfl_bytes_wraps :
  is_u32 4294967264 /\
  WT_ALIGN (4294967264 + 32) 512 = 4294967296 /\
  WT_OVFL_BYTES (mkDB 512) 4294967264 = 0 /\
  WT_OVFL_BYTES (mkDB 512) 4294967264 <> WT_ALIGN (4294967264 + 32) 512 /\
  WT_OVFL_BYTES (mkDB 512) 4294967264 < 4294967264 + 32.
Proof.
  unfold is_u32, UINT32_MAX.
  repeat split; try reflexivity; try lia.
  vm_compute. discriminate.
Qed.

End AddressTranslationExamples.

(** ** Item footprint and the walk over a page's items *)

Section ItemWalk.

Import Item Addr Page.

Lemma item_len_range (item : WT_ITEM) :
  0 <= WT_ITEM_LEN item <= WT_ITEM_MAX_LEN.
Proof.
  unfold WT_ITEM_LEN, WT_ITEM_MAX_LEN.
  rewrite len_mask_ones, Z.land_ones by lia.
  pose proof (Z.mod_pos_bound (__item_chunk item) (2 ^ 24)) as H. lia.
Qed.

Lemma item_space_req_unfold (len : Z) :
  is_u32 len -> WT_ITEM_SPACE_REQ len = WT_ALIGN (4 + len) 4.
Proof.
  unfold is_u32, UINT32_MAX. intros Hlen.
  unfold WT_ITEM_SPACE_REQ, sizeof_WT_ITEM, WT_ITEM_SIZE, sizeof_u_int32_t.
  rewrite size_t_small by lia. reflexivity.
Qed.

Lemma item_space_req_bounds (len : Z) :
  is_u32 len -> 4 + len <= WT_ITEM_SPACE_REQ len < 4 + len + 4.
Proof.
  intros Hlen. rewrite (item_space_req_unfold len Hlen).
  apply WT_ALIGN_bounds. lia.
Qed.

(** C7.  For every 32-bit length, the space an item of that length needs is
    the 4-byte header plus the length, rounded up to the next multiple of 4:
    it is a multiple of 4, at least [4 + len] and less than 4 more. *)
Theorem item_space_req_aligned (len : Z) :
  is_u32 len ->
  WT_ITEM_SPACE_REQ len = WT_ALIGN (4 + len) 4 /\
  WT_ITEM_SPACE_REQ len mod 4 = 0 /\
  4 + len <= WT_ITEM_SPACE_REQ len < 4 + len + 4.
Proof.
  intros Hlen.
  rewrite (item_space_req_unfold len Hlen).
  split; [reflexivity | split].
  - apply WT_ALIGN_multiple. lia.
  - rewrite <- (item_space_req_unfold len Hlen).
    apply item_space_req_bounds. exact Hlen.
Qed.

Lemma item_space_req_aligned_witness :
  is_u32 5 /\ WT_ITEM_SPACE_REQ 5 = 12 /\ 12 mod 4 = 0 /\ 4 + 5 <= 12 < 4 + 5 + 4.
Proof.
  assert (H : is_u32 5) by (unfold is_u32, UINT32_MAX; lia).
  split; [exact H |].
  pose proof (item_space_req_aligned 5 H) as [_ [Hmod Hb]].
  split; [reflexivity | split; [exact Hmod | exact Hb]].
Defined.

Variable page : WT_PAGE.

Lemma item_next_gt (item : Z) : item + 4 <= WT_ITEM_NEXT page item.
Proof.
  unfold WT_ITEM_NEXT.
  pose proof (item_len_range (item_at page item)) as Hr.
  unfold WT_ITEM_MAX_LEN in Hr.
  assert (Hu : is_u32 (WT_ITEM_LEN (item_at page item)))
    by (unfold is_u32, UINT32_MAX; lia).
  pose proof (item_space_req_bounds _ Hu) as Hb. lia.
Qed.

Lemma foreach_from_length (i : nat) :
  forall item, length (foreach_from page item i) = i.
Proof.
  induction i as [| i IH]; intros item; simpl.
  - reflexivity.
  - rewrite IH. reflexivity.
Qed.

Lemma foreach_end_S (k : nat) :
  forall item,
    foreach_end page item (S k) = WT_ITEM_NEXT page (foreach_end page item k).
Proof.
  induction k as [| k IH]; intros item.
  - reflexivity.
  - change (foreach_end page item (S (S k)))
      with (foreach_end page (WT_ITEM_NEXT page item) (S k)).
    rewrite IH. reflexivity.
Qed.

Lemma foreach_from_nth (i : nat) :
  forall item k,
    (k < i)%nat ->
    nth_error (foreach_from page item i) k = Some (foreach_end page item k).
Proof.
  induction i as [| i IH]; intros item k Hk.
  - inversion Hk.
  - destruct k as [| k]; simpl.
    + reflexivity.
    + apply IH. apply Nat.succ_lt_mono. exact Hk.
Qed.

Lemma foreach_end_le (item : Z) (j k : nat) :
  (j <= k)%nat -> foreach_end page item j <= foreach_end page item k.
Proof.
  induction 1 as [| k Hjk IH].
  - lia.
  - rewrite foreach_end_S.
    pose proof (item_next_gt (foreach_end page item k)). lia.
Qed.

Lemma foreach_end_lt (item : Z) (j k : nat) :
  (j < k)%nat -> foreach_end page item j < foreach_end page item k.
Proof.
  intros Hjk.
  pose proof (foreach_end_le item (S j) k Hjk) as Hle.
  rewrite foreach_end_S in Hle.
  pose proof (item_next_gt (foreach_end page item j)). lia.
Qed.

Lemma foreach_from_position (i : nat) (item : Z) (k : nat) (it : Z) :
  nth_error (foreach_from page item i) k = Some it ->
  (k < i)%nat /\ it = foreach_end page item k.
Proof.
  intros Hnth.
  assert (Hk : (k < i)%nat).
  { rewrite <- (foreach_from_length i item).
    apply nth_error_Some. rewrite Hnth. discriminate. }
  split; [exact Hk |].
  rewrite (foreach_from_nth i item k Hk) in Hnth.
  injection Hnth as Heq. symmetry. exact Heq.
Qed.

(** C9.  On a page whose header declares [n] entries, the walk runs its
    body exactly [n] times and ends.  The first item is at the first usable
    byte, 32 bytes after the header's start and 64 more on the page of
    address 0 only; each next item is the space requirement of the previous
    item's length after the previous item, so the items come in strictly
    increasing page order; and when the [n] items end within the page's
    bytes, every item visited lies between the first usable byte and the
    end of the page. *)
Theorem item_foreach_walk :
  0 <= u_entries (hdr page) ->
  Z.of_nat (length (WT_ITEM_FOREACH page)) = u_entries (hdr page) /\
  WT_PAGE_BYTE page = 32 + (if addr page =? 0 then 64 else 0) /\
  (0 < u_entries (hdr page) ->
   nth_error (WT_ITEM_FOREACH page) 0 = Some (WT_PAGE_BYTE page)) /\
  (forall k item,
     nth_error (WT_ITEM_FOREACH page) k = Some item ->
     Z.of_nat (S k) < u_entries (hdr page) ->
     nth_error (WT_ITEM_FOREACH page) (S k)
     = Some (item + WT_ITEM_SPACE_REQ (WT_ITEM_LEN (item_at page item)))) /\
  (forall j k a b,
     (j < k)%nat ->
     nth_error (WT_ITEM_FOREACH page) j = Some a ->
     nth_error (WT_ITEM_FOREACH page) k = Some b ->
     a < b) /\
  (WT_ITEM_FOREACH_end page <= bytes page ->
   forall item, In item (WT_ITEM_FOREACH page) -> item_within page item).
Proof.
  intros Hn. unfold WT_ITEM_FOREACH, WT_ITEM_FOREACH_end.
  set (n := Z.to_nat (u_entries (hdr page))).
  assert (Hnn : Z.of_nat n = u_entries (hdr page))
    by (unfold n; apply Z2Nat.id; exact Hn).
  split; [| split; [| split; [| split; [| split]]]].
  - rewrite foreach_from_length. exact Hnn.
  - reflexivity.
  - intros Hpos. apply (foreach_from_nth n (WT_PAGE_BYTE page) 0%nat). lia.
  - intros k item Hk Hlast.
    apply foreach_from_position in Hk as [_ ->].
    rewrite foreach_from_nth by lia.
    rewrite foreach_end_S. reflexivity.
  - intros j k a b Hjk Ha Hb.
    apply foreach_from_position in Ha as [_ ->].
    apply foreach_from_position in Hb as [_ ->].
    apply foreach_end_lt. exact Hjk.
  - intros Hfit item Hin.
    apply In_nth_error in Hin as [k Hk].
    apply foreach_from_position in Hk as [Hlt ->].
    unfold item_within. split.
    + apply (foreach_end_le (WT_PAGE_BYTE page) 0 k). lia.
    + rewrite <- foreach_end_S.
      transitivity (foreach_end page (WT_PAGE_BYTE page) n); [| exact Hfit].
      apply foreach_end_le. lia.
Qed.

End ItemWalk.

Section ItemWalkExample.

Import Item Addr Page.

Lemma item_foreach_walk_witness :
  (0 <= u_entries (hdr example_page) /\
   WT_ITEM_FOREACH_end example_page <= bytes example_page) /\
  WT_ITEM_FOREACH example_page = [96; 104; 112] /\
  Z.of_nat (length (WT_ITEM_FOREACH example_page)) = 3 /\
  item_within example_page 112.
Proof.
  assert (H : 0 <= u_entries (hdr example_page)) by (simpl; lia).
  assert (Hfit : WT_ITEM_FOREACH_end example_page <= bytes example_page)
    by (vm_compute; discriminate).
  pose proof (item_foreach_walk example_page H) as [Hlen [_ [_ [_ [_ Hin]]]]].
  split; [exact (conj H Hfit) | split; [reflexivity | split; [exact Hlen |]]].
  apply (Hin Hfit). simpl. tauto.
Defined.

End ItemWalkExample.

(** ** More on the packed item header *)

Section ItemHeaderMore.

Import Item.

Lemma lor_disjoint_add (a b : Z) : Z.land a b = 0 -> Z.lor a b = a + b.
Proof.
  intros H. rewrite <- (Z.lxor_lor a b H).
  symmetry. apply Z.add_nocarry_lxor. exact H.
Qed.

Lemma item_type_range (t : Z) : In t item_types -> 0 <= t < 2 ^ 28.
Proof.
  unfold item_types. simpl.
  intros [<- | [<- | [<- | [<- | [<- | [<- | [<- | []]]]]]]];
    vm_compute; split; congruence.
Qed.

Lemma len_type_disjoint (type len : Z) :
  In type item_types -> 0 <= len <= WT_ITEM_MAX_LEN -> Z.land type len = 0.
Proof.
  intros Ht Hl. destruct (item_type_cases type Ht) as [HtT _].
  rewrite <- HtT, <- (land_len_mask_small len Hl).
  rewrite (Z.land_comm len), Z.land_assoc, land_masked_type_len.
  apply Z.land_0_l.
Qed.

(** X1.  For each of the seven type patterns and every length from 0 to
    16,777,215, the header the two setters build is the sum of the type
    pattern and the length, whatever the item held before and whichever
    setter runs first. *)
Theorem pack_is_type_plus_len (item : WT_ITEM) (type len : Z) :
  In type item_types ->
  0 <= len <= WT_ITEM_MAX_LEN ->
  pack item type len = mkItem (type + len) /\
  pack_type_first item type len = mkItem (type + len).
Proof.
  intros Ht Hl.
  pose proof (item_type_range type Ht) as Htr.
  assert (Hlr : 0 <= len < 2 ^ 28) by (unfold WT_ITEM_MAX_LEN in Hl; lia).
  pose proof (len_type_disjoint type len Ht Hl) as Hd.
  destruct (item_type_cases type Ht) as [HtT _].
  split.
  - unfold pack. unfold WT_ITEM_TYPE_SET at 1.
    rewrite len_of_len_set, (land_len_mask_small len Hl).
    rewrite lor_u32_small by assumption.
    rewrite Z.lor_comm, lor_disjoint_add by exact Hd. reflexivity.
  - unfold pack_type_first. unfold WT_ITEM_LEN_SET at 1.
    rewrite type_of_type_set, HtT.
    rewrite lor_u32_small by assumption.
    rewrite lor_disjoint_add by exact Hd. reflexivity.
Qed.

Lemma pack_is_type_plus_len_witness :
  (In WT_ITEM_DATA item_types /\ 0 <= 9 <= WT_ITEM_MAX_LEN) /\
  pack (mkItem 0xf6abcdef) WT_ITEM_DATA 9 = mkItem 0x03000009.
Proof.
  assert (Ht : In WT_ITEM_DATA item_types)
    by (unfold item_types; simpl; tauto).
  assert (Hl : 0 <= 9 <= WT_ITEM_MAX_LEN) by (unfold WT_ITEM_MAX_LEN; lia).
  split; [exact (conj Ht Hl) |].
  exact (proj1 (pack_is_type_plus_len (mkItem 0xf6abcdef) WT_ITEM_DATA 9
                  Ht Hl)).
Defined.

(** X2.  The last write wins: a length of at most 16,777,215 set before
    another length, or one of the seven type patterns set before another
    type, leaves no trace in the item. *)
Theorem setter_overwrites_same_field (item : WT_ITEM) (l1 l2 t1 t2 : Z) :
  (0 <= l1 <= WT_ITEM_MAX_LEN ->
   WT_ITEM_LEN_SET (WT_ITEM_LEN_SET item l1) l2 = WT_ITEM_LEN_SET item l2) /\
  (In t1 item_types ->
   WT_ITEM_TYPE_SET (WT_ITEM_TYPE_SET item t1) t2 = WT_ITEM_TYPE_SET item t2).
Proof.
  split.
  - intros Hl. unfold WT_ITEM_LEN_SET at 1.
    rewrite type_of_len_set, (land_type_mask_small l1 Hl), Z.lor_0_r.
    reflexivity.
  - intros Ht. destruct (item_type_cases t1 Ht) as [_ HtL].
    unfold WT_ITEM_TYPE_SET at 1.
    rewrite len_of_type_set, HtL, Z.lor_0_r. reflexivity.
Qed.

Lemma setter_overwrites_same_field_witness :
  (0 <= 300 <= WT_ITEM_MAX_LEN /\ In WT_ITEM_KEY item_types) /\
  WT_ITEM_LEN_SET (WT_ITEM_LEN_SET (mkItem 0x05000001) 300) 7
    = mkItem 0x05000007 /\
  WT_ITEM_TYPE_SET (WT_ITEM_TYPE_SET (mkItem 0x05000001) WT_ITEM_KEY)
    WT_ITEM_OFFPAGE = mkItem 0x07000001.
Proof.
  assert (Hl : 0 <= 300 <= WT_ITEM_MAX_LEN) by (unfold WT_ITEM_MAX_LEN; lia).
  assert (Ht : In WT_ITEM_KEY item_types)
    by (unfold item_types; simpl; tauto).
  pose proof (setter_overwrites_same_field (mkItem 0x05000001)
                300 7 WT_ITEM_KEY WT_ITEM_OFFPAGE) as [Hlen Htype].
  split; [exact (conj Hl Ht) |].
  split; [exact (Hlen Hl) | exact (Htype Ht)].
Defined.

(** X3.  Packing the type and length read from an item gives back the
    item's chunk with bits 28-31 cleared, whatever storage it is packed
    into; so an item whose chunk is below 2^28 is rebuilt exactly from what
    [unpack] returns. *)
Theorem pack_unpack (other item : WT_ITEM) :
  pack other (WT_ITEM_TYPE item) (WT_ITEM_LEN item)
    = mkItem (__item_chunk item mod 2 ^ 28) /\
  (0 <= __item_chunk item < 2 ^ 28 ->
   pack other (fst (unpack item)) (snd (unpack item)) = item).
Proof.
  assert (Hgen : pack other (WT_ITEM_TYPE item) (WT_ITEM_LEN item)
                 = mkItem (__item_chunk item mod 2 ^ 28)).
  { unfold pack. unfold WT_ITEM_TYPE_SET at 1.
    rewrite len_of_len_set. unfold WT_ITEM_LEN, WT_ITEM_TYPE.
    rewrite <- Z.land_assoc, Z.land_diag.
    rewrite <- Z.land_lor_distr_r.
    replace (Z.lor 0x00ffffff 0x0f000000) with (Z.ones 28) by reflexivity.
    rewrite Z.land_ones by lia.
    rewrite u32_small; [reflexivity |].
    pose proof (Z.mod_pos_bound (__item_chunk item) (2 ^ 28)) as Hb.
    unfold is_u32, UINT32_MAX. lia. }
  split; [exact Hgen |].
  intros Hc. unfold unpack. cbn [fst snd].
  rewrite Hgen, Z.mod_small by exact Hc.
  destruct item. reflexivity.
Qed.

Lemma pack_unpack_witness :
  0 <= __item_chunk (mkItem 0x06001234) < 2 ^ 28 /\
  pack (mkItem 0xffffffff) (fst (unpack (mkItem 0x06001234)))
       (snd (unpack (mkItem 0x06001234))) = mkItem 0x06001234.
Proof.
  assert (H : 0 <= __item_chunk (mkItem 0x06001234) < 2 ^ 28)
    by (simpl; lia).
  split; [exact H |].
  exact (proj2 (pack_unpack (mkItem 0xffffffff) (mkItem 0x06001234)) H).
Defined.

(** X4.  Whatever the item held, once a length of at most 16,777,215 or one
    of the seven type patterns has been set, the chunk is below 2^28: the
    four bits the header leaves unused are clear. *)
Theorem setters_clear_unused_bits (item : WT_ITEM) (len type : Z) :
  (0 <= len <= WT_ITEM_MAX_LEN ->
   0 <= __item_chunk (WT_ITEM_LEN_SET item len) < 2 ^ 28) /\
  (In type item_types ->
   0 <= __item_chunk (WT_ITEM_TYPE_SET item type) < 2 ^ 28).
Proof.
  assert (Hlor : forall a b, 0 <= a < 2 ^ 28 -> 0 <= b < 2 ^ 28 ->
                             0 <= Z.lor a b < 2 ^ 28).
  { intros a b Ha Hb.
    assert (H : Z.lor a b = Z.land (Z.lor a b) (Z.ones 28)).
    { rewrite Z.land_lor_distr_l, !Z.land_ones by lia.
      rewrite !Z.mod_small by assumption. reflexivity. }
    rewrite H, Z.land_ones by lia. apply Z.mod_pos_bound. lia. }
  split.
  - intros Hl. unfold WT_ITEM_LEN_SET. cbn [__item_chunk].
    assert (Hlr : 0 <= len < 2 ^ 28) by (unfold WT_ITEM_MAX_LEN in Hl; lia).
    rewrite lor_u32_small by (try apply type_field_range; exact Hlr).
    apply Hlor; [apply type_field_range | exact Hlr].
  - intros Ht. unfold WT_ITEM_TYPE_SET. cbn [__item_chunk].
    pose proof (item_type_range type Ht) as Htr.
    pose proof (item_len_range item) as Hlr.
    unfold WT_ITEM_MAX_LEN in Hlr.
    rewrite lor_u32_small by lia.
    apply Hlor; lia.
Qed.

Lemma setters_clear_unused_bits_witness :
  (0 <= 4 <= WT_ITEM_MAX_LEN /\ In WT_ITEM_DUP item_types) /\
  0 <= __item_chunk (WT_ITEM_LEN_SET (mkItem 0xf3000000) 4) < 2 ^ 28 /\
  0 <= __item_chunk (WT_ITEM_TYPE_SET (mkItem 0xf3000000) WT_ITEM_DUP)
    < 2 ^ 28.
Proof.
  assert (Hl : 0 <= 4 <= WT_ITEM_MAX_LEN) by (unfold WT_ITEM_MAX_LEN; lia).
  assert (Ht : In WT_ITEM_DUP item_types)
    by (unfold item_types; simpl; tauto).
  pose proof (setters_clear_unused_bits (mkItem 0xf3000000) 4 WT_ITEM_DUP)
    as [Hlen Htype].
  split; [exact (conj Hl Ht) |].
  split; [exact (Hlen Hl) | exact (Htype Ht)].
Defined.

End ItemHeaderMore.

(** ** More on addresses, offsets and overflow sizes *)

Section AddressMore.

Import Addr.

Variable db : DB.

Lemma off_to_addr_nonneg (off : Z) :
  0 < allocsize db ->
  0 <= off ->
  WT_OFF_TO_ADDR db off = (off / allocsize db) mod 2 ^ 32.
Proof.
  intros Hu Hoff. unfold WT_OFF_TO_ADDR, u32.
  rewrite Z.quot_div_nonneg by lia. reflexivity.
Qed.

(** X5.  Every byte of an allocation unit translates back to the unit's
    address: for a 32-bit address [a] and a displacement [d] smaller than
    the allocation unit, with the offset a representable file offset, the
    address of the offset of [a] plus [d] is [a]. *)
Theorem off_to_addr_within_unit (a d : Z) :
  is_u32 a ->
  0 <= d < allocsize db ->
  a * allocsize db + d <= OFF_T_MAX ->
  WT_OFF_TO_ADDR db (WT_ADDR_TO_OFF db a + d) = a.
Proof.
  intros Ha Hd Hfit.
  assert (Hau : is_u32 a) by exact Ha.
  unfold is_u32, UINT32_MAX in Ha.
  rewrite addr_to_off_exact by (try exact Hau; nia).
  rewrite off_to_addr_nonneg by nia.
  replace (a * allocsize db + d) with (d + a * allocsize db) by lia.
  rewrite Z.div_add by lia.
  rewrite (Z.div_small d) by lia.
  apply Z.mod_small. lia.
Qed.

(** X6.  Going from a file offset to its address and back rounds the
    offset down to the start of its allocation unit: the result is the
    offset less its remainder, never above the offset, and the offset itself
    exactly when it is a multiple of the allocation unit. *)
Theorem addr_to_off_of_off_to_addr (off : Z) :
  0 < allocsize db ->
  0 <= off <= OFF_T_MAX ->
  off / allocsize db <= UINT32_MAX ->
  WT_ADDR_TO_OFF db (WT_OFF_TO_ADDR db off) = off - off mod allocsize db /\
  WT_ADDR_TO_OFF db (WT_OFF_TO_ADDR db off) <= off /\
  (WT_ADDR_TO_OFF db (WT_OFF_TO_ADDR db off) = off <->
   off mod allocsize db = 0).
Proof.
  intros Hu Hoff Hq.
  pose proof (Z.div_mod off (allocsize db) ltac:(lia)) as Hdm.
  pose proof (Z.mod_pos_bound off (allocsize db) Hu) as Hm.
  assert (Hq0 : 0 <= off / allocsize db) by (apply Z.div_pos; lia).
  assert (Haddr : WT_OFF_TO_ADDR db off = off / allocsize db).
  { rewrite off_to_addr_nonneg by lia. apply Z.mod_small.
    unfold UINT32_MAX in Hq. lia. }
  assert (Hval : WT_ADDR_TO_OFF db (WT_OFF_TO_ADDR db off)
                 = off - off mod allocsize db).
  { rewrite Haddr, addr_to_off_exact; [nia | split; assumption | lia | nia]. }
  rewrite Hval. split; [reflexivity | split; [lia |]].
  split; lia.
Qed.

(** X7.  Allocation units do not overlap: for 32-bit addresses [a < b] and
    a positive allocation unit, with the offset of [b] representable, the
    unit of [a] ends at or before the offset of [b]; so distinct addresses
    have distinct offsets. *)
Theorem addr_to_off_units_disjoint (a b : Z) :
  0 < allocsize db ->
  is_u32 a ->
  is_u32 b ->
  b * allocsize db <= OFF_T_MAX ->
  a < b ->
  WT_ADDR_TO_OFF db a + allocsize db <= WT_ADDR_TO_OFF db b.
Proof.
  intros Hu Ha Hb Hfit Hab.
  assert (Ha' : is_u32 a) by exact Ha.
  unfold is_u32 in Ha.
  rewrite (addr_to_off_exact db a), (addr_to_off_exact db b)
    by (try assumption; nia).
  nia.
Qed.

(** X8.  With an allocation unit of at most 2^31 bytes the product cannot
    overflow: for every 32-bit address the offset is the exact product, a
    non-negative file offset; with the minimum unit of 512 bytes every
    offset is below 2 TB. *)
Theorem addr_to_off_never_overflows (addr : Z) :
  is_u32 addr ->
  0 <= allocsize db <= 2 ^ 31 ->
  WT_ADDR_TO_OFF db addr = addr * allocsize db /\
  0 <= WT_ADDR_TO_OFF db addr <= OFF_T_MAX /\
  (allocsize db = 512 -> WT_ADDR_TO_OFF db addr < 2 ^ 41).
Proof.
  intros Ha Hu.
  assert (Ha' : is_u32 addr) by exact Ha.
  unfold is_u32, UINT32_MAX in Ha.
  assert (Hfit : addr * allocsize db <= OFF_T_MAX)
    by (unfold OFF_T_MAX; nia).
  rewrite addr_to_off_exact by (try assumption; lia).
  split; [reflexivity | split; [nia |]].
  intros Hmin. rewrite Hmin. lia.
Qed.

(** X9.  A file offset below [WT_ADDR_INVALID] allocation units translates
    to an address below the invalid one; the first offset past that range
    translates to [WT_ADDR_INVALID] itself. *)
Theorem off_to_addr_invalid_boundary (off : Z) :
  0 < allocsize db ->
  0 <= off < WT_ADDR_INVALID * allocsize db ->
  0 <= WT_OFF_TO_ADDR db off < WT_ADDR_INVALID /\
  WT_OFF_TO_ADDR db (WT_ADDR_INVALID * allocsize db) = WT_ADDR_INVALID.
Proof.
  unfold WT_ADDR_INVALID, UINT32_MAX. intros Hu Hoff.
  split.
  - rewrite off_to_addr_nonneg by lia.
    assert (Hq : 0 <= off / allocsize db < 4294967295).
    { split; [apply Z.div_pos; lia |].
      apply Z.div_lt_upper_bound; lia. }
    rewrite Z.mod_small by lia. exact Hq.
  - rewrite off_to_addr_nonneg by nia.
    rewrite Z.div_mul by lia. reflexivity.
Qed.

(** X10.  Addresses wrap at 32 bits: two non-negative file offsets that lie
    2^32 allocation units apart translate to the same address. *)
Theorem off_to_addr_wraps (off : Z) :
  0 < allocsize db ->
  0 <= off ->
  WT_OFF_TO_ADDR db (off + 2 ^ 32 * allocsize db) = WT_OFF_TO_ADDR db off.
Proof.
  intros Hu Hoff.
  rewrite !off_to_addr_nonneg by nia.
  rewrite Z.div_add by lia.
  replace (off / allocsize db + 2 ^ 32)
    with (off / allocsize db + 1 * 2 ^ 32) by lia.
  apply Z_mod_plus_full.
Qed.

End AddressMore.

Section AddressMoreExamples.

Import Addr.

Lemma off_to_addr_within_unit_witness :
  (is_u32 3 /\ 0 <= 511 < 512 /\ 3 * 512 + 511 <= OFF_T_MAX) /\
  WT_OFF_TO_ADDR (mkDB 512) (WT_ADDR_TO_OFF (mkDB 512) 3 + 511) = 3.
Proof.
  assert (H1 : is_u32 3) by (unfold is_u32, UINT32_MAX; lia).
  assert (H2 : 0 <= 511 < allocsize (mkDB 512)) by (simpl; lia).
  assert (H3 : 3 * allocsize (mkDB 512) + 511 <= OFF_T_MAX)
    by (vm_compute; discriminate).
  split; [exact (conj H1 (conj H2 H3)) |].
  exact (off_to_addr_within_unit (mkDB 512) 3 511 H1 H2 H3).
Defined.

Lemma addr_to_off_of_off_to_addr_witness :
  (0 < 512 /\ 0 <= 1300 <= OFF_T_MAX /\ 1300 / 512 <= UINT32_MAX) /\
  WT_ADDR_TO_OFF (mkDB 512) (WT_OFF_TO_ADDR (mkDB 512) 1300) = 1024.
Proof.
  assert (H1 : 0 < allocsize (mkDB 512)) by (simpl; lia).
  assert (H2 : 0 <= 1300 <= OFF_T_MAX) by (unfold OFF_T_MAX; lia).
  assert (H3 : 1300 / allocsize (mkDB 512) <= UINT32_MAX)
    by (vm_compute; discriminate).
  split; [exact (conj H1 (conj H2 H3)) |].
  exact (proj1 (addr_to_off_of_off_to_addr (mkDB 512) 1300 H1 H2 H3)).
Defined.

Lemma addr_to_off_units_disjoint_witness :
  (0 < 4096 /\ is_u32 5 /\ is_u32 6 /\ 6 * 4096 <= OFF_T_MAX /\ 5 < 6) /\
  WT_ADDR_TO_OFF (mkDB 4096) 5 + 4096 <= WT_ADDR_TO_OFF (mkDB 4096) 6.
Proof.
  assert (H1 : 0 < allocsize (mkDB 4096)) by (simpl; lia).
  assert (H2 : is_u32 5) by (unfold is_u32, UINT32_MAX; lia).
  assert (H3 : is_u32 6) by (unfold is_u32, UINT32_MAX; lia).
  assert (H4 : 6 * allocsize (mkDB 4096) <= OFF_T_MAX)
    by (vm_compute; discriminate).
  assert (H5 : 5 < 6) by lia.
  split; [exact (conj H1 (conj H2 (conj H3 (conj H4 H5)))) |].
  exact (addr_to_off_units_disjoint (mkDB 4096) 5 6 H1 H2 H3 H4 H5).
Defined.

Lemma addr_to_off_never_overflows_witness :
  (is_u32 4294967295 /\ 0 <= 512 <= 2 ^ 31) /\
  WT_ADDR_TO_OFF (mkDB 512) 4294967295 = 2199023255040.
Proof.
  assert (H1 : is_u32 4294967295) by (unfold is_u32, UINT32_MAX; lia).
  assert (H2 : 0 <= allocsize (mkDB 512) <= 2 ^ 31) by (simpl; lia).
  split; [exact (conj H1 H2) |].
  exact (proj1 (addr_to_off_never_overflows (mkDB 512) 4294967295 H1 H2)).
Defined.

Lemma off_to_addr_invalid_boundary_witness :
  (0 < 512 /\ 0 <= 2199023255039 < WT_ADDR_INVALID * 512) /\
  0 <= WT_OFF_TO_ADDR (mkDB 512) 2199023255039 < WT_ADDR_INVALID.
Proof.
  assert (H1 : 0 < allocsize (mkDB 512)) by (simpl; lia).
  assert (H2 : 0 <= 2199023255039 < WT_ADDR_INVALID * allocsize (mkDB 512))
    by (unfold WT_ADDR_INVALID, UINT32_MAX; simpl; lia).
  split; [exact (conj H1 H2) |].
  exact (proj1 (off_to_addr_invalid_boundary (mkDB 512) 2199023255039 H1 H2)).
Defined.

Lemma off_to_addr_wraps_witness :
  (0 < 512 /\ 0 <= 1024) /\
  WT_OFF_TO_ADDR (mkDB 512) (1024 + 2 ^ 32 * 512) = 2.
Proof.
  assert (H1 : 0 < allocsize (mkDB 512)) by (simpl; lia).
  assert (H2 : 0 <= 1024) by lia.
  split; [exact (conj H1 H2) |].
  exact (off_to_addr_wraps (mkDB 512) 1024 H1 H2).
Defined.

End AddressMoreExamples.

(** ** More on overflow sizes and item space *)

Section SizesMore.

Import Item Addr Page Payload.

Lemma WT_ALIGN_monotone (n m v : Z) :
  0 < v -> n <= m -> WT_ALIGN n v <= WT_ALIGN m v.
Proof.
  intros Hv Hnm. unfold WT_ALIGN.
  apply Z.mul_le_mono_nonneg_r; [lia |].
  apply Z.div_le_mono; lia.
Qed.

Lemma ovfl_bytes_exact (db : DB) (len : Z) :
  is_u32 len ->
  0 < allocsize db ->
  len + 32 + allocsize db <= 2 ^ 32 ->
  WT_OVFL_BYTES db len = WT_ALIGN (len + 32) (allocsize db).
Proof.
  unfold is_u32, UINT32_MAX. intros Hlen Hu Hfit.
  unfold WT_OVFL_BYTES, sizeof_WT_PAGE_HDR, WT_PAGE_HDR_SIZE.
  rewrite size_t_small by lia.
  pose proof (WT_ALIGN_bounds (len + 32) (allocsize db) Hu) as Hb.
  apply u32_small. unfold is_u32, UINT32_MAX. lia.
Qed.

(** X11.  When the overflow length plus the page header plus one allocation
    unit stays within 32 bits, the overflow size is a whole, positive
    number of allocation units: it is at least one unit, a multiple of the
    unit, its address count is the length plus 32 divided by the unit and
    rounded up, and turning that count back into bytes gives the size. *)
Theorem ovfl_bytes_whole_units (db : DB) (len : Z) :
  is_u32 len ->
  0 < allocsize db ->
  len + 32 + allocsize db <= 2 ^ 32 ->
  allocsize db <= WT_OVFL_BYTES db len /\
  WT_OVFL_BYTES db len mod allocsize db = 0 /\
  WT_OFF_TO_ADDR db (WT_OVFL_BYTES db len)
    = (len + 32 + (allocsize db - 1)) / allocsize db /\
  WT_ADDR_TO_OFF db (WT_OFF_TO_ADDR db (WT_OVFL_BYTES db len))
    = WT_OVFL_BYTES db len.
Proof.
  intros Hlen Hu Hfit.
  rewrite (ovfl_bytes_exact db len Hlen Hu Hfit).
  pose proof (WT_ALIGN_bounds (len + 32) (allocsize db) Hu) as Hb.
  unfold is_u32, UINT32_MAX in Hlen.
  unfold WT_ALIGN in *.
  set (q := (len + 32 + (allocsize db - 1)) / allocsize db) in *.
  assert (Hq : 1 <= q) by nia.
  assert (Haddr : WT_OFF_TO_ADDR db (q * allocsize db) = q).
  { unfold WT_OFF_TO_ADDR.
    rewrite Z.quot_mul by lia.
    apply u32_small. unfold is_u32, UINT32_MAX. nia. }
  split; [nia | split; [apply Z.mod_mul; lia | split; [exact Haddr |]]].
  rewrite Haddr.
  apply addr_to_off_exact; unfold is_u32, UINT32_MAX, OFF_T_MAX; nia.
Qed.

Lemma ovfl_bytes_whole_units_witness :
  (is_u32 1000 /\ 0 < 512 /\ 1000 + 32 + 512 <= 2 ^ 32) /\
  WT_OFF_TO_ADDR (mkDB 512) (WT_OVFL_BYTES (mkDB 512) 1000) = 3.
Proof.
  assert (H1 : is_u32 1000) by (unfold is_u32, UINT32_MAX; lia).
  assert (H2 : 0 < allocsize (mkDB 512)) by (simpl; lia).
  assert (H3 : 1000 + 32 + allocsize (mkDB 512) <= 2 ^ 32) by (simpl; lia).
  split; [exact (conj H1 (conj H2 H3)) |].
  exact (proj1 (proj2 (proj2
           (ovfl_bytes_whole_units (mkDB 512) 1000 H1 H2 H3)))).
Defined.

(** X12.  A longer overflow item never needs fewer bytes: within the same
    32-bit range, the overflow size grows with the length. *)
Theorem ovfl_bytes_monotone (db : DB) (len1 len2 : Z) :
  0 < allocsize db ->
  0 <= len1 <= len2 ->
  len2 + 32 + allocsize db <= 2 ^ 32 ->
  WT_OVFL_BYTES db len1 <= WT_OVFL_BYTES db len2.
Proof.
  intros Hu Hl Hfit.
  rewrite !ovfl_bytes_exact by (unfold is_u32, UINT32_MAX; lia).
  apply WT_ALIGN_monotone; lia.
Qed.

Lemma ovfl_bytes_monotone_witness :
  (0 < 512 /\ 0 <= 480 <= 481 /\ 481 + 32 + 512 <= 2 ^ 32) /\
  WT_OVFL_BYTES (mkDB 512) 480 <= WT_OVFL_BYTES (mkDB 512) 481.
Proof.
  assert (H1 : 0 < allocsize (mkDB 512)) by (simpl; lia).
  assert (H2 : 0 <= 480 <= 481) by lia.
  assert (H3 : 481 + 32 + allocsize (mkDB 512) <= 2 ^ 32) by (simpl; lia).
  split; [exact (conj H1 (conj H2 H3)) |].
  exact (ovfl_bytes_monotone (mkDB 512) 480 481 H1 H2 H3).
Defined.

(** X13.  The space an item needs is its 4-byte header, its length and the
    0 to 3 bytes that bring the length to a multiple of 4; a length that is
    a multiple of 4 is not padded, so the two reference payloads, of 16 and
    8 bytes, take 20 and 12 bytes. *)
Theorem item_space_req_padding (len : Z) :
  (is_u32 len -> WT_ITEM_SPACE_REQ len = 4 + len + (- len) mod 4) /\
  (is_u32 len -> len mod 4 = 0 -> WT_ITEM_SPACE_REQ len = 4 + len) /\
  WT_ITEM_SPACE_REQ WT_ITEM_OFFP_SIZE = 20 /\
  WT_ITEM_SPACE_REQ WT_ITEM_OVFL_SIZE = 12.
Proof.
  assert (Hform : is_u32 len ->
                  WT_ITEM_SPACE_REQ len = 4 + len + (- len) mod 4).
  { intros Hlen. rewrite (item_space_req_unfold len Hlen).
    unfold WT_ALIGN.
    pose proof (Z.div_mod (4 + len + (4 - 1)) 4 ltac:(lia)) as Hd.
    pose proof (Z.mod_pos_bound (4 + len + (4 - 1)) 4 ltac:(lia)) as Hb.
    pose proof (Z.div_mod (- len) 4 ltac:(lia)) as Hd'.
    pose proof (Z.mod_pos_bound (- len) 4 ltac:(lia)) as Hb'.
    lia. }
  split; [exact Hform | split; [| split; reflexivity]].
  intros Hlen Hmod. rewrite (Hform Hlen).
  pose proof (Z.div_mod len 4 ltac:(lia)) as Hd.
  pose proof (Z.div_mod (- len) 4 ltac:(lia)) as Hd'.
  pose proof (Z.mod_pos_bound (- len) 4 ltac:(lia)) as Hb'.
  lia.
Qed.

Lemma item_space_req_padding_witness :
  (is_u32 5 /\ is_u32 8 /\ 8 mod 4 = 0) /\
  WT_ITEM_SPACE_REQ 5 = 4 + 5 + 3 /\ WT_ITEM_SPACE_REQ 8 = 4 + 8.
Proof.
  assert (H1 : is_u32 5) by (unfold is_u32, UINT32_MAX; lia).
  assert (H2 : is_u32 8) by (unfold is_u32, UINT32_MAX; lia).
  assert (H3 : 8 mod 4 = 0) by reflexivity.
  split; [exact (conj H1 (conj H2 H3)) |].
  split.
  - exact (proj1 (item_space_req_padding 5) H1).
  - exact (proj1 (proj2 (item_space_req_padding 8)) H2 H3).
Defined.

(** X14.  A longer item never needs less space, and no item on a page needs
    more than 16 MB plus its header: the space of the length read from any
    item header is between 4 and 2^24 + 4 bytes. *)
Theorem item_space_req_monotone (len1 len2 : Z) (item : WT_ITEM) :
  (0 <= len1 <= len2 -> is_u32 len2 ->
   WT_ITEM_SPACE_REQ len1 <= WT_ITEM_SPACE_REQ len2) /\
  4 <= WT_ITEM_SPACE_REQ (WT_ITEM_LEN item) <= 2 ^ 24 + 4.
Proof.
  split.
  - intros Hl Hu. unfold is_u32 in Hu.
    rewrite !item_space_req_unfold by (unfold is_u32; lia).
    apply WT_ALIGN_monotone; lia.
  - pose proof (item_len_range item) as Hr.
    unfold WT_ITEM_MAX_LEN in Hr.
    assert (Hu : is_u32 (WT_ITEM_LEN item))
      by (unfold is_u32, UINT32_MAX; lia).
    pose proof (item_space_req_bounds _ Hu) as Hb.
    split; [lia |].
    assert (Hmax : is_u32 16777215) by (unfold is_u32, UINT32_MAX; lia).
    rewrite (item_space_req_unfold _ Hu).
    transitivity (WT_ALIGN (4 + 16777215) 4).
    + apply WT_ALIGN_monotone; lia.
    + vm_compute. discriminate.
Qed.

Lemma item_space_req_monotone_witness :
  (0 <= 5 <= 8 /\ is_u32 8) /\ WT_ITEM_SPACE_REQ 5 <= WT_ITEM_SPACE_REQ 8.
Proof.
  assert (H1 : 0 <= 5 <= 8) by lia.
  assert (H2 : is_u32 8) by (unfold is_u32, UINT32_MAX; lia).
  split; [exact (conj H1 H2) |].
  exact (proj1 (item_space_req_monotone 5 8 (mkItem 0)) H1 H2).
Defined.

(** X15.  The data of an item lies inside the item: it starts 4 bytes after
    the header, and its last byte comes before the next item, with fewer
    than 4 bytes between the two; when the item is 4-byte aligned, so are
    its data and the next item. *)
Theorem item_data_within_item (page : WT_PAGE) (item : Z) :
  WT_ITEM_BYTE item = item + 4 /\
  WT_ITEM_BYTE item + WT_ITEM_LEN (item_at page item)
    <= WT_ITEM_NEXT page item
    < WT_ITEM_BYTE item + WT_ITEM_LEN (item_at page item) + 4 /\
  (item mod 4 = 0 ->
   WT_ITEM_BYTE item mod 4 = 0 /\ WT_ITEM_NEXT page item mod 4 = 0).
Proof.
  pose proof (item_len_range (item_at page item)) as Hr.
  unfold WT_ITEM_MAX_LEN in Hr.
  assert (Hu : is_u32 (WT_ITEM_LEN (item_at page item)))
    by (unfold is_u32, UINT32_MAX; lia).
  pose proof (item_space_req_bounds _ Hu) as Hb.
  unfold WT_ITEM_BYTE, WT_ITEM_NEXT, sizeof_WT_ITEM, WT_ITEM_SIZE.
  split; [reflexivity | split; [lia |]].
  intros Hmod. split.
  - rewrite <- Z.add_mod_idemp_l, Hmod by lia. reflexivity.
  - rewrite <- Z.add_mod_idemp_l, Hmod by lia.
    rewrite Z.add_0_l, (item_space_req_unfold _ Hu).
    apply WT_ALIGN_multiple. lia.
Qed.

Lemma item_data_within_item_witness :
  96 mod 4 = 0 /\
  WT_ITEM_BYTE 96 mod 4 = 0 /\ WT_ITEM_NEXT example_page 96 mod 4 = 0.
Proof.
  assert (H : 96 mod 4 = 0) by reflexivity.
  split; [exact H |].
  exact (proj2 (proj2 (item_data_within_item example_page 96)) H).
Defined.

End SizesMore.

(** ** More on the walk over a page's items *)

Section ItemWalkMore.

Import Item Addr Page Payload.

Variable page : WT_PAGE.

Lemma page_byte_aligned : WT_PAGE_BYTE page mod 4 = 0.
Proof.
  unfold WT_PAGE_BYTE, WT_PAGE_HDR_SIZE, WT_PAGE_DESC_SIZE.
  destruct (addr page =? 0); reflexivity.
Qed.

Lemma item_next_aligned (item : Z) :
  item mod 4 = 0 -> WT_ITEM_NEXT page item mod 4 = 0.
Proof.
  intros Hmod. unfold WT_ITEM_NEXT.
  pose proof (item_len_range (item_at page item)) as Hr.
  unfold WT_ITEM_MAX_LEN in Hr.
  rewrite item_space_req_unfold by (unfold is_u32, UINT32_MAX; lia).
  rewrite <- Z.add_mod_idemp_l, Hmod, Z.add_0_l by lia.
  apply WT_ALIGN_multiple. lia.
Qed.

Lemma foreach_from_aligned (i : nat) :
  forall item,
    item mod 4 = 0 ->
    Forall (fun it => it mod 4 = 0) (foreach_from page item i).
Proof.
  induction i as [| i IH]; intros item Hmod; simpl.
  - constructor.
  - constructor; [exact Hmod |].
    apply IH. apply item_next_aligned. exact Hmod.
Qed.

(** X16.  Every item the walk visits is 4-byte aligned from the start of
    the page, on the page of address 0 as on any other, whatever the
    lengths stored in the item headers. *)
Theorem item_foreach_aligned :
  Forall (fun item => item mod 4 = 0) (WT_ITEM_FOREACH page).
Proof.
  unfold WT_ITEM_FOREACH.
  apply foreach_from_aligned. apply page_byte_aligned.
Qed.

(** X17.  Items do not overlap: an item visited earlier ends, padding
    included, at or before the start of every item visited later. *)
Theorem item_foreach_disjoint (j k : nat) (a b : Z) :
  (j < k)%nat ->
  nth_error (WT_ITEM_FOREACH page) j = Some a ->
  nth_error (WT_ITEM_FOREACH page) k = Some b ->
  WT_ITEM_BYTE a + WT_ITEM_LEN (item_at page a) <= WT_ITEM_NEXT page a /\
  WT_ITEM_NEXT page a <= b.
Proof.
  unfold WT_ITEM_FOREACH. intros Hjk Ha Hb.
  apply foreach_from_position in Ha as [_ ->].
  apply foreach_from_position in Hb as [_ ->].
  split.
  - pose proof (item_len_range
                  (item_at page (foreach_end page (WT_PAGE_BYTE page) j)))
      as Hr.
    unfold WT_ITEM_MAX_LEN in Hr.
    unfold WT_ITEM_BYTE, WT_ITEM_NEXT, sizeof_WT_ITEM, WT_ITEM_SIZE.
    pose proof (item_space_req_bounds
                  (WT_ITEM_LEN
                     (item_at page
                        (foreach_end page (WT_PAGE_BYTE page) j)))) as Hb.
    unfold is_u32, UINT32_MAX in Hb. lia.
  - rewrite <- foreach_end_S.
    apply foreach_end_le. lia.
Qed.

Lemma foreach_end_space (i : nat) :
  forall item,
    foreach_end page item i
    = item + space_used page (foreach_from page item i).
Proof.
  induction i as [| i IH]; intros item; simpl.
  - lia.
  - rewrite IH. unfold WT_ITEM_NEXT. lia.
Qed.

(** X19.  The cursor the walk ends with, the first byte after the last
    item, is the first usable byte of the page plus the space requirements
    of the items visited. *)
Theorem item_foreach_end_is_space_used :
  WT_ITEM_FOREACH_end page
  = WT_PAGE_BYTE page + space_used page (WT_ITEM_FOREACH page).
Proof.
  unfold WT_ITEM_FOREACH_end, WT_ITEM_FOREACH.
  apply foreach_end_space.
Qed.

Lemma foreach_end_bounds (i : nat) :
  forall item,
    item + 4 * Z.of_nat i <= foreach_end page item i
      <= item + (2 ^ 24 + 4) * Z.of_nat i.
Proof.
  induction i as [| i IH]; intros item.
  - simpl. lia.
  - change (foreach_end page item (S i))
      with (foreach_end page (WT_ITEM_NEXT page item) i).
    specialize (IH (WT_ITEM_NEXT page item)).
    pose proof (item_len_range (item_at page item)) as Hr.
    unfold WT_ITEM_MAX_LEN in Hr.
    assert (Hu : is_u32 (WT_ITEM_LEN (item_at page item)))
      by (unfold is_u32, UINT32_MAX; lia).
    pose proof (item_space_req_bounds _ Hu) as Hb.
    assert (Hal : WT_ITEM_SPACE_REQ (WT_ITEM_LEN (item_at page item)) mod 4
                  = 0).
    { rewrite (item_space_req_unfold _ Hu). apply WT_ALIGN_multiple. lia. }
    pose proof (Z.div_mod (WT_ITEM_SPACE_REQ
                             (WT_ITEM_LEN (item_at page item))) 4
                  ltac:(lia)) as Hd.
    unfold WT_ITEM_NEXT in *. lia.
Qed.

(** X20.  Each entry takes at least 4 bytes and at most 2^24 + 4: the walk
    over [n] entries ends between [4 * n] and [(2^24 + 4) * n] bytes after
    the first usable byte, so a page whose items end within its bytes holds
    at most a quarter of its usable bytes as entries. *)
Theorem item_foreach_entry_bound :
  0 <= u_entries (hdr page) ->
  WT_PAGE_BYTE page + 4 * u_entries (hdr page)
    <= WT_ITEM_FOREACH_end page
    <= WT_PAGE_BYTE page + (2 ^ 24 + 4) * u_entries (hdr page) /\
  (WT_ITEM_FOREACH_end page <= bytes page ->
   4 * u_entries (hdr page) <= bytes page - WT_PAGE_BYTE page).
Proof.
  intros Hn. unfold WT_ITEM_FOREACH_end.
  pose proof (foreach_end_bounds (Z.to_nat (u_entries (hdr page)))
                (WT_PAGE_BYTE page)) as Hb.
  rewrite Z2Nat.id in Hb by exact Hn.
  split; [exact Hb | lia].
Qed.

End ItemWalkMore.

Section ItemWalkFrame.

Import Item Addr Page Payload.

Lemma foreach_from_same_lengths (p q : WT_PAGE) (i : nat) :
  forall item,
    (forall it, In it (foreach_from p item i) ->
                WT_ITEM_LEN (item_at p it) = WT_ITEM_LEN (item_at q it)) ->
    foreach_from p item i = foreach_from q item i /\
    foreach_end p item i = foreach_end q item i.
Proof.
  induction i as [| i IH]; intros item Hsame.
  - split; reflexivity.
  - assert (Hnext : WT_ITEM_NEXT p item = WT_ITEM_NEXT q item).
    { unfold WT_ITEM_NEXT. rewrite (Hsame item); [reflexivity |].
      simpl. left. reflexivity. }
    simpl. rewrite <- Hnext.
    destruct (IH (WT_ITEM_NEXT p item)) as [Hl He].
    { intros it Hin. apply Hsame. simpl. right. exact Hin. }
    split; [rewrite Hl; reflexivity | exact He].
Qed.

(** X21.  The walk depends only on the page's address, its entry count and
    the lengths in the headers of the items it visits: two pages that agree
    on these are walked alike, whatever the item types and the data bytes
    are. *)
Theorem item_foreach_reads_lengths_only (p q : WT_PAGE) :
  addr p = addr q ->
  u_entries (hdr p) = u_entries (hdr q) ->
  (forall item, In item (WT_ITEM_FOREACH p) ->
                WT_ITEM_LEN (item_at p item) = WT_ITEM_LEN (item_at q item)) ->
  WT_ITEM_FOREACH p = WT_ITEM_FOREACH q /\
  WT_ITEM_FOREACH_end p = WT_ITEM_FOREACH_end q.
Proof.
  unfold WT_ITEM_FOREACH, WT_ITEM_FOREACH_end, WT_PAGE_BYTE.
  intros Haddr Hent Hsame.
  rewrite <- Haddr, <- Hent.
  apply foreach_from_same_lengths. exact Hsame.
Qed.

Lemma item_foreach_disjoint_witness :
  ((0 < 2)%nat /\
   nth_error (WT_ITEM_FOREACH example_page) 0 = Some 96 /\
   nth_error (WT_ITEM_FOREACH example_page) 2 = Some 112) /\
  WT_ITEM_BYTE 96 + WT_ITEM_LEN (item_at example_page 96)
    <= WT_ITEM_NEXT example_page 96 /\
  WT_ITEM_NEXT example_page 96 <= 112.
Proof.
  assert (H1 : (0 < 2)%nat) by lia.
  assert (H2 : nth_error (WT_ITEM_FOREACH example_page) 0 = Some 96)
    by reflexivity.
  assert (H3 : nth_error (WT_ITEM_FOREACH example_page) 2 = Some 112)
    by reflexivity.
  split; [exact (conj H1 (conj H2 H3)) |].
  exact (item_foreach_disjoint example_page 0 2 96 112 H1 H2 H3).
Defined.

Lemma item_foreach_entry_bound_witness :
  (0 <= u_entries (hdr example_page) /\
   WT_ITEM_FOREACH_end example_page <= bytes example_page) /\
  4 * 3 <= 512 - 96.
Proof.
  assert (H1 : 0 <= u_entries (hdr example_page)) by (simpl; lia).
  assert (H2 : WT_ITEM_FOREACH_end example_page <= bytes example_page)
    by (vm_compute; discriminate).
  split; [exact (conj H1 H2) |].
  exact (proj2 (item_foreach_entry_bound example_page H1) H2).
Defined.

Lemma item_foreach_reads_lengths_only_witness :
  (addr example_page = addr example_page_retyped /\
   u_entries (hdr example_page) = u_entries (hdr example_page_retyped)) /\
  WT_ITEM_FOREACH example_page = WT_ITEM_FOREACH example_page_retyped.
Proof.
  assert (H1 : addr example_page = addr example_page_retyped)
    by reflexivity.
  assert (H2 : u_entries (hdr example_page)
               = u_entries (hdr example_page_retyped)) by reflexivity.
  split; [exact (conj H1 H2) |].
  refine (proj1 (item_foreach_reads_lengths_only
                   example_page example_page_retyped H1 H2 _)).
  intros item Hin. simpl in Hin.
  destruct Hin as [<- | [<- | [<- | []]]]; reflexivity.
Defined.

End ItemWalkFrame.

(** ** The walk over the in-memory index *)

Section IndexWalk.

Import Index.

Lemma indx_from_seq (i : nat) :
  forall ip, indx_from ip i = map (fun k => ip + Z.of_nat k) (seq 0 i).
Proof.
  induction i as [| i IH]; intros ip.
  - reflexivity.
  - cbn [indx_from seq map]. f_equal.
    + simpl. lia.
    + rewrite IH, <- seq_shift, map_map.
      apply map_ext. intros k. lia.
Qed.

(** X22.  The index walk visits the elements [indx[0]], [indx[1]], ... in
    this order, [indx_count] of them; when the count is no more than the
    size of the array, every element visited is inside the array. *)
Theorem indx_foreach_visits (page : WT_PAGE_INDX) :
  WT_INDX_FOREACH page
    = map (fun k => indx page + Z.of_nat k)
          (seq 0 (Z.to_nat (indx_count page))) /\
  (0 <= indx_count page ->
   Z.of_nat (length (WT_INDX_FOREACH page)) = indx_count page) /\
  (indx_count page <= indx_size page ->
   Forall (fun ip => indx page <= ip < indx page + indx_size page)
          (WT_INDX_FOREACH page)).
Proof.
  unfold WT_INDX_FOREACH. rewrite indx_from_seq.
  split; [reflexivity | split].
  - intros Hn. rewrite length_map, length_seq. apply Z2Nat.id. exact Hn.
  - intros Hsz. apply Forall_forall. intros ip Hin.
    apply in_map_iff in Hin as [k [<- Hk]].
    apply in_seq in Hk. lia.
Qed.

Lemma indx_foreach_visits_witness :
  (0 <= 3 /\ 3 <= 8) /\
  Z.of_nat (length (WT_INDX_FOREACH (mkIndx 100 3 8))) = 3 /\
  Forall (fun ip => 100 <= ip < 100 + 8) (WT_INDX_FOREACH (mkIndx 100 3 8)).
Proof.
  assert (H1 : 0 <= indx_count (mkIndx 100 3 8)) by (simpl; lia).
  assert (H2 : indx_count (mkIndx 100 3 8) <= indx_size (mkIndx 100 3 8))
    by (simpl; lia).
  pose proof (indx_foreach_visits (mkIndx 100 3 8)) as [_ [Hlen Hin]].
  split; [exact (conj H1 H2) |].
  split; [exact (Hlen H1) | exact (Hin H2)].
Defined.

End IndexWalk.

(** ** Sizes of the on-disk structures *)

Section StructSizes.

Import Addr Item Payload Layout.

(** X23.  Laid out field after field, each aligned to its own size, the
    five on-disk structures need no padding: the fields sit at the offsets
    the declarations give in their comments (the 8-byte record number of the
    descriptor at offset 16), and the sizes are the fields' bytes, equal to
    the constants [WT_PAGE_DESC_SIZE], [WT_PAGE_HDR_SIZE], [WT_ITEM_SIZE],
    [WT_ITEM_OFFP_SIZE] and [WT_ITEM_OVFL_SIZE]. *)
Theorem on_disk_structs_unpadded :
  (offsets_from 0 __wt_page_desc = [0; 4; 6; 8; 12; 16; 24; 28; 32] /\
   sizeof_struct __wt_page_desc = fields_bytes __wt_page_desc /\
   sizeof_struct __wt_page_desc = WT_PAGE_DESC_SIZE) /\
  (offsets_from 0 __wt_page_hdr = [0; 8; 9; 10; 12; 16; 20; 24; 28] /\
   sizeof_struct __wt_page_hdr = fields_bytes __wt_page_hdr /\
   sizeof_struct __wt_page_hdr = WT_PAGE_HDR_SIZE) /\
  (sizeof_struct __wt_item = fields_bytes __wt_item /\
   sizeof_struct __wt_item = WT_ITEM_SIZE) /\
  (offsets_from 0 __wt_item_offp = [0; 8; 12; 13] /\
   sizeof_struct __wt_item_offp = fields_bytes __wt_item_offp /\
   sizeof_struct __wt_item_offp = WT_ITEM_OFFP_SIZE) /\
  (offsets_from 0 __wt_item_ovfl = [0; 4] /\
   sizeof_struct __wt_item_ovfl = fields_bytes __wt_item_ovfl /\
   sizeof_struct __wt_item_ovfl = WT_ITEM_OVFL_SIZE).
Proof. repeat split; reflexivity. Qed.

End StructSizes.

(** ** The walk stays behind the page header *)

Section ItemWalkStart.

Import Item Addr Page.

(** X24.  The walk never enters the page header, nor the descriptor of the
    first page: the item visited in position [k] lies at least [4 * k]
    bytes after the first usable byte, hence at offset 32 or more on every
    page and at offset 96 or more on the page of address
    [WT_ADDR_FIRST_PAGE]. *)
Theorem item_foreach_after_header (page : WT_PAGE) (k : nat) (item : Z) :
  nth_error (WT_ITEM_FOREACH page) k = Some item ->
  WT_PAGE_BYTE page + 4 * Z.of_nat k <= item /\
  WT_PAGE_HDR_SIZE <= item /\
  (addr page = WT_ADDR_FIRST_PAGE ->
   WT_PAGE_HDR_SIZE + WT_PAGE_DESC_SIZE <= item).
Proof.
  unfold WT_ITEM_FOREACH. intros Hk.
  apply foreach_from_position in Hk as [_ ->].
  pose proof (foreach_end_bounds page k (WT_PAGE_BYTE page)) as [Hlow _].
  split; [exact Hlow |].
  unfold WT_PAGE_BYTE, WT_ADDR_FIRST_PAGE, WT_PAGE_HDR_SIZE,
    WT_PAGE_DESC_SIZE in *.
  split.
  - destruct (addr page =? 0); lia.
  - intros Hfirst. rewrite Hfirst in Hlow |- *.
    change (0 =? 0) with true in Hlow |- *. lia.
Qed.

Lemma item_foreach_after_header_witness :
  (nth_error (WT_ITEM_FOREACH example_page) 1 = Some 104 /\
   addr example_page = WT_ADDR_FIRST_PAGE) /\
  WT_PAGE_HDR_SIZE + WT_PAGE_DESC_SIZE <= 104.
Proof.
  assert (H1 : nth_error (WT_ITEM_FOREACH example_page) 1 = Some 104)
    by reflexivity.
  assert (H2 : addr example_page = WT_ADDR_FIRST_PAGE) by reflexivity.
  split; [exact (conj H1 H2) |].
  exact (proj2 (proj2 (item_foreach_after_header example_page 1 104 H1)) H2).
Defined.

End ItemWalkStart.
